(** * insta-infra: the service orchestration CLI (insta.go)

    A shallow embedding of [insta.go]: the suffix classification used by
    [printServices], the lifecycle operations [runServices] and
    [downServices], the attach operation [connectToService], the loader
    wrapper [createDockerProject] and the command table of [main].

    The Go program talks to three external libraries: compose-go's loader,
    docker compose's [api.Service] and urfave/cli.  They are taken as
    parameters (records of functions over an abstract backend state); the
    code of [insta.go] itself is translated definition by definition. *)

From Stdlib Require Import ZArith String Ascii.
From stdpp Require Import base option list strings gmap fin_maps.

Local Open Scope string_scope.
Local Open Scope list_scope.

(** ** Go's [strings.HasSuffix]

    [len(s) >= len(suffix) && s[len(s)-len(suffix):] == suffix] *)

Module strings.

Definition HasSuffix (s suffix : string) : bool :=
  (String.length suffix <=? String.length s)%nat
  && String.eqb
       (substring (String.length s - String.length suffix)
                  (String.length suffix) s)
       suffix.

End strings.

(** ** Package-level data *)

(** [var nonServiceSuffix = []string{"-data", "-init", "-server"}] *)
Definition nonServiceSuffix : list string := ["-data"; "-init"; "-server"].

(** The inner loop of [printServices] (lines 210-216): the flag starts
    [false]; the first suffix that matches sets it and leaves the loop. *)
Fixpoint hasNonServiceSuffix_loop (serviceName : string) (sfxs : list string)
  : bool :=
  match sfxs with
  | [] => false
  | sfx :: rest =>
      if strings.HasSuffix serviceName sfx then true
      else hasNonServiceSuffix_loop serviceName rest
  end.

Definition hasNonServiceSuffix (serviceName : string) : bool :=
  hasNonServiceSuffix_loop serviceName nonServiceSuffix.

(** ** The data model

    The parts of compose-go's [types] and docker compose's [api] packages
    that [insta.go] reads or fills in.  A Go [error] is an opaque value with
    a message; [nil] is [None]. *)

Definition error : Type := string.

Module ServiceConfig.
Record t : Type := mk { Name : string; Image : string }.
End ServiceConfig.

Module Project.
(** [Services] is compose-go v2's [map[string]ServiceConfig]. *)
Record t : Type := mk {
  Name : string;
  Services : gmap string ServiceConfig.t;
}.
End Project.

Module CreateOptions.
Record t : Type := mk { Services : list string }.
(** The zero value, which [runServices] leaves in [UpOptions.Create]. *)
Definition zero : t := {| Services := [] |}.
End CreateOptions.

Module StartOptions.
Record t : Type := mk { Services : list string }.
End StartOptions.

Module UpOptions.
Record t : Type := mk { Create : CreateOptions.t; Start : StartOptions.t }.
End UpOptions.

Module DownOptions.
Record t : Type := mk { Services : list string }.
End DownOptions.

Module RunOptions.
Record t : Type := mk {
  Service : string;
  Command : list string;
  WorkingDir : string;
  Tty : bool;
  Environment : list string;
}.
End RunOptions.

Module api.

(** The three methods of [api.Service] the program calls, as functions of
    the backend's state [B], which lives outside the process.  [Up] is
    handed the pointer [p] and so may write the Project it points to: it
    returns the Project it leaves behind.  [Down] and [Exec] are handed
    the string [p.Name] only; a backend is taken not to keep the pointer
    once [Up] has returned. *)
Record Service (B : Type) : Type := mkService {
  Up : Project.t → UpOptions.t → B → option error * Project.t * B;
  Down : string → DownOptions.t → B → option error * B;
  Exec : string → RunOptions.t → B → Z * option error * B;
}.
Arguments Up {B} _ _ _ _.
Arguments Down {B} _ _ _ _.
Arguments Exec {B} _ _ _ _.

(** A request as the backend receives it. *)
Inductive Request : Type :=
| ReqUp (project : Project.t) (options : UpOptions.t)
| ReqDown (projectName : string) (options : DownOptions.t)
| ReqExec (projectName : string) (options : RunOptions.t).

End api.

(** ** The process

    An operand of [Println]/[Fatalln]; a line is the list of its operands. *)
Inductive Val : Type :=
| VStr (s : string)
| VStrs (l : list string)
| VInt (n : Z)
| VErr (e : option error).

(** What a run of the program can see or change: the Project [p] points to
    (the only [*types.Project] of the process), the backend's state, the
    requests issued to the backend so far (oldest first), and the lines
    written to standard output and to the logger. *)
Record World (B : Type) : Type := mkWorld {
  project : Project.t;
  backend : B;
  requests : list api.Request;
  stdout : list (list Val);
  logged : list (list Val);
}.
Arguments mkWorld {B} _ _ _ _ _.
Arguments project {B} _.
Arguments backend {B} _.
Arguments requests {B} _.
Arguments stdout {B} _.
Arguments logged {B} _.

(** A call either returns to its caller or ends the process ([os.Exit]). *)
Inductive Outcome (A : Type) : Type :=
| Returned (a : A)
| Exited (status : Z).
Arguments Returned {A} _.
Arguments Exited {A} _.

Definition Proc (B A : Type) : Type := World B → Outcome A * World B.

Section monad.
Context {B : Type}.

Definition ret {A} (a : A) : Proc B A := λ w, (Returned a, w).

Definition bind {A C} (m : Proc B A) (k : A → Proc B C) : Proc B C :=
  λ w, match m w with
       | (Returned a, w') => k a w'
       | (Exited st, w') => (Exited st, w')
       end.

Definition exit {A} (status : Z) : Proc B A := λ w, (Exited status, w).

(** Reading through the pointer [p]. *)
Definition deref_p : Proc B Project.t := λ w, (Returned (project w), w).

(** [p := ...] in [main]: the Project object comes into being. *)
Definition assign_p (p : Project.t) : Proc B unit :=
  λ w, (Returned tt,
        mkWorld p (backend w) (requests w) (stdout w) (logged w)).

Definition write_stdout (line : list Val) : Proc B unit :=
  λ w, (Returned tt,
        mkWorld (project w) (backend w) (requests w)
                (stdout w ++ [line]) (logged w)).

Definition write_log (line : list Val) : Proc B unit :=
  λ w, (Returned tt,
        mkWorld (project w) (backend w) (requests w)
                (stdout w) (logged w ++ [line])).
End monad.

(** [Proc B] with stdpp's monad notations: [x ← m; k] and [m;; k]. *)
#[global] Instance proc_ret {B} : MRet (Proc B) := λ A, @ret B A.
#[global] Instance proc_bind {B} : MBind (Proc B) := λ A C k m, @bind B A C m k.

Module fmt.
Definition Println {B} (operands : list Val) : Proc B unit :=
  write_stdout operands.
End fmt.

Module log.
Definition Println {B} (operands : list Val) : Proc B unit :=
  write_log operands.
(** [Fatalln] is [Println] followed by [os.Exit(1)]. *)
Definition Fatalln {B A} (operands : list Val) : Proc B A :=
  write_log operands;; exit 1.
(** [Fatal] is [Print] followed by [os.Exit(1)]. *)
Definition Fatal {B A} (operands : list Val) : Proc B A :=
  write_log operands;; exit 1.
End log.

(** Calls through the [srv] interface value.  Each one is recorded in
    [requests] and lets the backend move to its next state. *)
Section calls.
Context {B : Type} (srv : api.Service B).

Definition srv_Up (options : UpOptions.t) : Proc B (option error) :=
  λ w, let '(err, p', b') := api.Up srv (project w) options (backend w) in
       (Returned err,
        mkWorld p' b' (requests w ++ [api.ReqUp (project w) options])
                (stdout w) (logged w)).

Definition srv_Down (projectName : string) (options : DownOptions.t)
  : Proc B (option error) :=
  λ w, let '(err, b') := api.Down srv projectName options (backend w) in
       (Returned err,
        mkWorld (project w) b'
                (requests w ++ [api.ReqDown projectName options])
                (stdout w) (logged w)).

Definition srv_Exec (projectName : string) (options : RunOptions.t)
  : Proc B (Z * option error) :=
  λ w, let '(result, err, b') :=
         api.Exec srv projectName options (backend w) in
       (Returned (result, err),
        mkWorld (project w) b'
                (requests w ++ [api.ReqExec projectName options])
                (stdout w) (logged w)).
End calls.

(** ** The external loader and command-line library *)

Module ConfigFile.
Record t : Type := mk { Filename : string; Content : string }.
End ConfigFile.

Module ConfigDetails.
Record t : Type := mk {
  WorkingDir : string;
  ConfigFiles : list ConfigFile.t;
  Environment : list (string * string);
}.
End ConfigDetails.

Module loader.

Record Options : Type := mkOptions {
  projectName : string;
  projectNameImperativelySet : bool;
}.

(** The options [LoadWithContext] starts from, before the caller's
    function has run. *)
Definition defaultOptions : Options :=
  {| projectName := ""; projectNameImperativelySet := false |}.

Definition SetProjectName (o : Options) (name : string)
    (imperativelySet : bool) : Options :=
  {| projectName := name; projectNameImperativelySet := imperativelySet |}.

(** compose-go's parser, which is not part of this repository: from the
    configuration and the options in force it yields a Project or an
    error. *)
Definition Loader : Type := ConfigDetails.t → Options → Project.t + error.

Definition LoadWithContext (load : Loader) (configDetails : ConfigDetails.t)
    (option : Options → Options) : Project.t + error :=
  load configDetails (option defaultOptions).

(** The contract of [SetProjectName(name, true)]: a name set imperatively
    is the name of the Project that is loaded, whatever the text says. *)
Definition honours_project_name (load : Loader) : Prop :=
  ∀ details o p,
    projectNameImperativelySet o = true →
    load details o = inl p → Project.Name p = projectName o.

End loader.

Module cli.

Record Context : Type := mkContext { Args : list string }.

Definition NArg (cCtx : Context) : nat := length (Args cCtx).
Definition First (cCtx : Context) : string := hd "" (Args cCtx).
Definition Slice (cCtx : Context) : list string := Args cCtx.

Record Command (B : Type) : Type := mkCommand {
  Name : string;
  Aliases : list string;
  Usage : string;
  Action : Context → Proc B (option error);
}.
Arguments mkCommand {B} _ _ _ _.
Arguments Name {B} _.
Arguments Aliases {B} _.
Arguments Usage {B} _.
Arguments Action {B} _ _.

Record App (B : Type) : Type := mkApp { Commands : list (Command B) }.
Arguments mkApp {B} _.
Arguments Commands {B} _.

Definition HasName {B} (c : Command B) (name : string) : bool :=
  bool_decide (name ∈ Name c :: Aliases c).

(** urfave/cli's dispatch, which is not part of this repository, reduced
    to what [main] relies on: the first argument after the program name
    selects the command with that name or alias, whose [Action] runs on
    the remaining arguments; with no such command the library's own help
    action [help] runs (the [App] of [main] sets no [Action]).  [Run]
    returns once the action has returned.  Flags are not modelled: a word
    that starts with a dash is handed on like any other, where the library
    would parse it, so the model speaks for command lines without such
    words. *)
Definition Run {B} (help : Context → Proc B (option error)) (a : App B)
    (arguments : list string) : Proc B (option error) :=
  match tail arguments with
  | name :: rest =>
      match find (λ c, HasName c name) (Commands a) with
      | Some c => Action c {| Args := rest |}
      | None => help {| Args := name :: rest |}
      end
  | [] => help {| Args := [] |}
  end.

End cli.

(** ** The functions of [insta.go]

    The [ctx] argument is [context.TODO()] throughout and carries nothing;
    it is left out.  The argument [p] is always the pointer to the
    [project] of the world; the functions read it with [deref_p]. *)

Section insta.
Context {B : Type}.

(** Lines 106-114. *)
Definition runServices (srv : api.Service B) (services : list string)
  : Proc B (option error) :=
  log.Println [VStr "Attempting to being services up:"; VStrs services];;
  let startOptions := {| StartOptions.Services := services |} in
  err ← srv_Up srv {| UpOptions.Create := CreateOptions.zero;
                      UpOptions.Start := startOptions |};
  (if err is Some _
   then log.Fatalln [VStr "Failed to bring services up:"; VErr err]
   else mret tt);;
  mret err.

(** Lines 116-123. *)
Definition downServices (srv : api.Service B) (services : list string)
  : Proc B (option error) :=
  log.Println [VStr "Attempting to being services down:"; VStrs services];;
  p ← deref_p;
  err ← srv_Down srv (Project.Name p)
                 {| DownOptions.Services := services |};
  (if err is Some _
   then log.Fatalln [VStr "Failed to bring services down:"; VErr err]
   else mret tt);;
  mret err.

(** Lines 149-167. *)
Definition createDockerProject (load : loader.Loader) (data : string)
  : Proc B Project.t :=
  let configDetails :=
    {| ConfigDetails.WorkingDir := "/in-memory/";
       ConfigDetails.ConfigFiles :=
         [ {| ConfigFile.Filename := "docker-compose.yaml";
              ConfigFile.Content := data |} ];
       ConfigDetails.Environment := [] |} in
  let projectName := "testproject" in
  match loader.LoadWithContext load configDetails
          (λ options, loader.SetProjectName options projectName true) with
  | inr err => log.Fatalln [VStr "Failed to load docker:"; VErr (Some err)]
  | inl p => mret p
  end.

(** Lines 189-201. *)
Definition connectToService (srv : api.Service B) (service cmd : string)
  : Proc B unit :=
  p ← deref_p;
  '(result, err) ← srv_Exec srv (Project.Name p)
      {| RunOptions.Service := service;
         RunOptions.Command := [cmd];
         RunOptions.WorkingDir := "/bin";
         RunOptions.Tty := true;
         RunOptions.Environment := [] |};
  (if err is Some _
   then log.Fatalln [VStr "Failed to connect to service:"; VStr service;
                     VStr ". Error:"; VErr err]
   else mret tt);;
  log.Println [VStr "Command result:"; VInt result;
               VStr " and err:"; VErr err].

(** Lines 208-220, the loop of [printServices] over the entries of the
    map in the order [range] happens to yield them. *)
Fixpoint printServices_range (entries : list (string * ServiceConfig.t))
  : Proc B unit :=
  match entries with
  | [] => mret tt
  | (_, serviceConfig) :: rest =>
      let serviceName := ServiceConfig.Name serviceConfig in
      (if hasNonServiceSuffix serviceName
       then fmt.Println [VStr (ServiceConfig.Name serviceConfig)]
       else mret tt);;
      printServices_range rest
  end.

(** Lines 203-221.  Go leaves the order of [range] over a map open: a run
    visits the entries in some order [order], a permutation of the map's
    entries of [services] (see [range_order] below), and that order
    stands for the argument [services]. *)
Definition printServices (order : list (string * ServiceConfig.t))
    (cCtx : cli.Context) : Proc B unit :=
  if (0 <? cli.NArg cCtx)%nat then mret tt
  else printServices_range order.

End insta.

Module flags.
Record ClientOptions : Type := mk { Context : string; LogLevel : string }.
End flags.

Section main.
Context {B DockerCli : Type}.

(** What [main] takes from outside [insta.go]: the embedded
    [docker-compose.yaml], compose-go's loader, the docker CLI
    constructors and urfave/cli's help action. *)
Variable baseDockerComposeYaml : string.
Variable load : loader.Loader.
Variable NewDockerCli : DockerCli + error.
Variable Initialize : DockerCli → flags.ClientOptions → option error.
Variable NewComposeService : DockerCli → api.Service B.
Variable help : cli.Context → Proc B (option error).

(** Lines 169-187. *)
Definition createDockerService : api.Service B + error :=
  match NewDockerCli with
  | inr err => inr err
  | inl dockerCli =>
      let dockerContext := "default" in
      let myOpts := {| flags.Context := dockerContext;
                       flags.LogLevel := "error" |} in
      match Initialize dockerCli myOpts with
      | Some err => inr err
      | None => inl (NewComposeService dockerCli)
      end
  end.

(** The [Action] closures of the command table, lines 42-48, 54-57,
    63-66, 72-78 and 84-87. *)
Definition action_up (srv : api.Service B) (cCtx : cli.Context)
  : Proc B (option error) :=
  err ← runServices srv (cli.Slice cCtx);
  (if err is Some _
   then log.Fatalln [VStr "Failed to run services:"; VErr err]
   else mret tt);;
  mret None.

Definition action_run (cCtx : cli.Context) : Proc B (option error) :=
  fmt.Println [VStr "run task: "; VStr (cli.First cCtx)];;
  mret None.

Definition action_connect (cCtx : cli.Context) : Proc B (option error) :=
  fmt.Println [VStr "connect task: "; VStr (cli.First cCtx)];;
  mret None.

Definition action_down (srv : api.Service B) (cCtx : cli.Context)
  : Proc B (option error) :=
  err ← downServices srv (cli.Slice cCtx);
  (if err is Some _
   then log.Fatalln [VStr "Failed to bring down services:"; VErr err]
   else mret tt);;
  mret None.

Definition action_update (cCtx : cli.Context) : Proc B (option error) :=
  fmt.Println [VStr "update task: "; VStr (cli.First cCtx)];;
  mret None.

(** Lines 37-90.  The first command has no [Name]. *)
Definition app (srv : api.Service B) : cli.App B :=
  {| cli.Commands :=
       [ cli.mkCommand "" [] "Run services" (action_up srv);
         cli.mkCommand "run" ["r"] "Run services" action_run;
         cli.mkCommand "connect" ["c"] "Connect to a service"
                       action_connect;
         cli.mkCommand "down" ["d"] "Bring all services down"
                       (action_down srv);
         cli.mkCommand "update" ["u"]
                       "Update to the latest service versions"
                       action_update ] |}.

(** Lines 27-104; [osArgs] is [os.Args]. *)
Definition main (osArgs : list string) : Proc B unit :=
  p ← createDockerProject load baseDockerComposeYaml;
  assign_p p;;
  match createDockerService with
  | inr err =>
      log.Fatalln [VStr "Failed to create docker service:";
                   VErr (Some err)]
  | inl srv =>
      err ← cli.Run help (app srv) osArgs;
      (if err is Some _ then log.Fatal [VErr err] else mret tt);;
      connectToService srv "my-service" "echo hello world";;
      connectToService srv "my-service" "cd / && ls";;
      fmt.Println [VStr "Docker service down..."];;
      p ← deref_p;
      err ← srv_Down srv (Project.Name p) {| DownOptions.Services := [] |};
      if err is Some _
      then log.Fatalln [VStr "Failed to bring services down:"; VErr err]
      else mret tt
  end.

End main.

(** ** Backends to run the program against

    Implementations of [api.Service] small enough to evaluate.  The state
    of the first four is the set of services that are running. *)

Module backends.

(** The services a request with target list [names] addresses: an empty
    list stands for every service the Project declares. *)
Definition targets (p : Project.t) (names : list string) : gset string :=
  match names with
  | [] => dom (Project.Services p)
  | _ => list_to_set names
  end.

(** Starts what is asked for, leaves what is running alone, and refuses
    to exec into a service that is not running. *)
Definition reconciling : api.Service (gset string) :=
  {| api.Up p o running :=
       (None, p, running ∪ targets p (StartOptions.Services (UpOptions.Start o)));
     api.Down _ o running :=
       (None, match DownOptions.Services o with
              | [] => ∅
              | names => running ∖ list_to_set names
              end);
     api.Exec _ o running :=
       if bool_decide (RunOptions.Service o ∈ running)
       then (0%Z, None, running)
       else (1%Z, Some "service is not running", running) |}.

(** Like [reconciling], but starting a service that is already running
    is an error. *)
Definition exclusive : api.Service (gset string) :=
  {| api.Up p o running :=
       let ts := targets p (StartOptions.Services (UpOptions.Start o)) in
       if bool_decide (running ∩ ts = ∅)
       then (None, p, running ∪ ts)
       else (Some "container name already in use", p, running);
     api.Down := api.Down reconciling;
     api.Exec := api.Exec reconciling |}.

(** Like [reconciling], but exec runs the command whether or not the
    service is running. *)
Definition permissive : api.Service (gset string) :=
  {| api.Up := api.Up reconciling;
     api.Down := api.Down reconciling;
     api.Exec _ _ running := (0%Z, None, running) |}.

(** Every request fails. *)
Definition unreachable : api.Service (gset string) :=
  {| api.Up p _ running := (Some "backend unreachable", p, running);
     api.Down _ _ running := (Some "backend unreachable", running);
     api.Exec _ _ running := (1%Z, Some "backend unreachable", running) |}.

(** Like [reconciling], but [Up] writes the image it resolved back into
    the Project it was handed. *)
Definition pin (sc : ServiceConfig.t) : ServiceConfig.t :=
  {| ServiceConfig.Name := ServiceConfig.Name sc;
     ServiceConfig.Image := ServiceConfig.Image sc +:+ "@sha256:0" |}.

Definition pinning : api.Service (gset string) :=
  {| api.Up p o running :=
       (None,
        {| Project.Name := Project.Name p;
           Project.Services := pin <$> Project.Services p |},
        running ∪ targets p (StartOptions.Services (UpOptions.Start o)));
     api.Down := api.Down reconciling;
     api.Exec := api.Exec reconciling |}.

(** A Project with one primary and one auxiliary service, and a loader
    that yields its services for every text, under the name the options
    carry. *)
Definition web : ServiceConfig.t :=
  {| ServiceConfig.Name := "web"; ServiceConfig.Image := "nginx" |}.
Definition web_data : ServiceConfig.t :=
  {| ServiceConfig.Name := "web-data"; ServiceConfig.Image := "busybox" |}.

Definition demo : Project.t :=
  {| Project.Name := "testproject";
     Project.Services := {[ "web" := web; "web-data" := web_data ]} |}.

Definition load : loader.Loader :=
  λ _ o, inl {| Project.Name := loader.projectName o;
                Project.Services := Project.Services demo |}.

(** A world in which nothing is running and nothing has happened yet. *)
Definition start (p : Project.t) : World (gset string) :=
  mkWorld p ∅ [] [] [].

(** Like [reconciling], but [Up] writes the name under which it deployed
    the Project back into the Project it was handed. *)
Definition renaming : api.Service (gset string) :=
  {| api.Up p o running :=
       (None,
        {| Project.Name := Project.Name p +:+ "_1";
           Project.Services := Project.Services p |},
        running ∪ targets p (StartOptions.Services (UpOptions.Start o)));
     api.Down := api.Down reconciling;
     api.Exec := api.Exec reconciling |}.

End backends.

(** ** Fetching a topology

    [getLatestDockerComposeFile] talks to the network and the file system
    instead of the container backend.  For it the state outside the
    process is an [outside.State]: the calls made so far, oldest first, and
    the state [E] those calls act on. *)

Module outside.

Inductive Call : Type :=
| CallGet (url : string)
| CallReadAll
| CallWriteFile (name : string) (data : string) (perm : Z)
| CallClose.

Record State (E : Type) : Type := mkState { calls : list Call; env : E }.
Arguments mkState {E} _ _.
Arguments calls {E} _.
Arguments env {E} _.

(** [http.Get] (a response is its [Body]), [io.ReadAll], [os.WriteFile]
    and the [Close] of the body, as functions of [E]. *)
Record Externals (E Body : Type) : Type := mkExternals {
  Get : string → E → (Body + error) * E;
  ReadAll : Body → E → (string + error) * E;
  WriteFile : string → string → Z → E → option error * E;
  Close : Body → E → option error * E;
}.
Arguments Get {E Body} _ _ _.
Arguments ReadAll {E Body} _ _ _.
Arguments WriteFile {E Body} _ _ _ _ _.
Arguments Close {E Body} _ _ _.

(** One call: it is recorded and acts on [E]. *)
Definition call {E A} (c : Call) (f : E → A * E) : Proc (State E) A :=
  λ w, let '(a, e') := f (env (backend w)) in
       (Returned a,
        mkWorld (project w) (mkState (calls (backend w) ++ [c]) e')
                (requests w) (stdout w) (logged w)).

End outside.

Section fetch.
Context {E Body : Type} (x : outside.Externals E Body).

(** Lines 125-147.  The deferred closure runs when the function returns,
    that is after the write went well; [log.Fatalln] leaves through
    [os.Exit], which runs no deferred call.  The mode [0644] is 420. *)
Definition getLatestDockerComposeFile (dockerComposeUrl : string)
  : Proc (outside.State E) unit :=
  r ← outside.call (outside.CallGet dockerComposeUrl)
                   (outside.Get x dockerComposeUrl);
  match r with
  | inr err =>
      log.Fatalln [VStr "Failed to get docker compose file from url:";
                   VStr dockerComposeUrl; VErr (Some err)]
  | inl response_Body =>
      r1 ← outside.call outside.CallReadAll (outside.ReadAll x response_Body);
      match r1 with
      | inr err1 =>
          log.Fatalln [VStr "Failed to read in HTTP response body: ";
                       VErr (Some err1)]
      | inl body =>
          err2 ← outside.call
                   (outside.CallWriteFile "docker-compose.yaml" body 420)
                   (outside.WriteFile x "docker-compose.yaml" body 420);
          (if err2 is Some _
           then log.Fatalln
                  [VStr "Failed to write to docker-compose.yaml file: ";
                   VErr err2]
           else mret tt);;
          err ← outside.call outside.CallClose
                             (outside.Close x response_Body);
          if err is Some _
          then log.Fatalln [VStr "Failed to close HTTP response body: ";
                            VErr err]
          else mret tt
      end
  end.

End fetch.

(** * Vocabulary of the properties *)

(** What "the name ends with the marker" means, independently of the code. *)
Definition ends_with (s sfx : string) : Prop := ∃ pre, s = pre +:+ sfx.

(** [order] is an order in which [range services] can yield the entries. *)
Definition range_order (services : gmap string ServiceConfig.t)
    (order : list (string * ServiceConfig.t)) : Prop :=
  order ≡ₚ map_to_list services.

(** The options [runServices] builds from its [services] argument, and
    those [connectToService] builds from its [service] and [cmd]. *)
Definition up_options (services : list string) : UpOptions.t :=
  {| UpOptions.Create := CreateOptions.zero;
     UpOptions.Start := {| StartOptions.Services := services |} |}.

Definition exec_options (service cmd : string) : RunOptions.t :=
  {| RunOptions.Service := service;
     RunOptions.Command := [cmd];
     RunOptions.WorkingDir := "/bin";
     RunOptions.Tty := true;
     RunOptions.Environment := [] |}.

(** A backend whose [Up] may be repeated: after an [Up] that succeeded, the
    same [Up] succeeds again and changes nothing. *)
Definition up_idempotent {B} (srv : api.Service B) : Prop :=
  ∀ p o b p' b',
    api.Up srv p o b = (None, p', b') → api.Up srv p' o b' = (None, p', b').

(** The lines a walk over [order] should leave on standard output if it
    prints the names carrying a marker of [nonServiceSuffix]. *)
Definition suffixed_lines (order : list (string * ServiceConfig.t))
  : list (list Val) :=
  (λ e, [VStr (ServiceConfig.Name e.2)])
    <$> filter (λ e, hasNonServiceSuffix (ServiceConfig.Name e.2) = true) order.

(** One lifecycle or attach operation, and a run of several in a row; the
    run stops with the process. *)
Inductive Op : Type :=
| OpUp (services : list string)
| OpDown (services : list string)
| OpAttach (service cmd : string).

Definition is_up (op : Op) : bool :=
  match op with OpUp _ => true | _ => false end.

Definition run_op {B} (srv : api.Service B) (op : Op) : Proc B unit :=
  match op with
  | OpUp services => runServices srv services;; mret tt
  | OpDown services => downServices srv services;; mret tt
  | OpAttach service cmd => connectToService srv service cmd
  end.

Fixpoint run_ops {B} (srv : api.Service B) (ops : list Op) : Proc B unit :=
  match ops with
  | [] => mret tt
  | op :: rest => run_op srv op;; run_ops srv rest
  end.

(** A backend whose [Up] hands the Project back as it received it. *)
Definition up_preserves_project {B} (srv : api.Service B) : Prop :=
  ∀ p o b, (api.Up srv p o b).1.2 = p.

(** A backend whose [Up] leaves the name of the Project as it was. *)
Definition up_preserves_name {B} (srv : api.Service B) : Prop :=
  ∀ p o b, Project.Name (api.Up srv p o b).1.2 = Project.Name p.

(** The namespace a request addresses: the project name it carries, or
    the name of the Project it carries. *)
Definition request_namespace (r : api.Request) : string :=
  match r with
  | api.ReqUp p _ => Project.Name p
  | api.ReqDown projectName _ => projectName
  | api.ReqExec projectName _ => projectName
  end.

(** What [createDockerProject] hands the loader for the text [data], and
    the options in force once its option function has run. *)
Definition compose_config (data : string) : ConfigDetails.t :=
  {| ConfigDetails.WorkingDir := "/in-memory/";
     ConfigDetails.ConfigFiles :=
       [ {| ConfigFile.Filename := "docker-compose.yaml";
            ConfigFile.Content := data |} ];
     ConfigDetails.Environment := [] |}.

Definition testproject_options : loader.Options :=
  {| loader.projectName := "testproject";
     loader.projectNameImperativelySet := true |}.

(** The options [createDockerService] initialises the docker CLI with. *)
Definition client_options : flags.ClientOptions :=
  {| flags.Context := "default"; flags.LogLevel := "error" |}.

(** The three requests [main] issues after the run of the command line,
    in the namespace [name]. *)
Definition teardown_requests (name : string) : list api.Request :=
  [ api.ReqExec name (exec_options "my-service" "echo hello world");
    api.ReqExec name (exec_options "my-service" "cd / && ls");
    api.ReqDown name {| DownOptions.Services := [] |} ].

(** * Properties *)

Ltac proc_unfold :=
  unfold log.Fatalln, log.Fatal, log.Println, fmt.Println,
    srv_Up, srv_Down, srv_Exec, deref_p, assign_p, write_log, write_stdout,
    exit, mbind, mret, proc_bind, proc_ret, bind, ret in *.

(** ** Facts about strings *)

Section string_facts.

Lemma substring_0_length (s : string) : substring 0 (String.length s) s = s.
Proof. induction s as [|c s IH]; simpl; [done | by rewrite IH]. Qed.

Lemma append_String (c : ascii) (s t : string) :
  String c s +:+ t = String c (s +:+ t).
Proof. reflexivity. Qed.

Lemma length_append (s t : string) :
  String.length (s +:+ t) = (String.length s + String.length t)%nat.
Proof. induction s as [|c s IH]; simpl; [done | by rewrite IH]. Qed.

Lemma substring_append_drop (pre s : string) (n : nat) :
  substring (String.length pre) n (pre +:+ s) = substring 0 n s.
Proof. induction pre as [|c pre IH]; simpl; [done | apply IH]. Qed.

(** A string is its first [n] characters followed by the rest. *)
Lemma substring_split (s : string) (n : nat) :
  (n ≤ String.length s)%nat →
  s = substring 0 n s +:+ substring n (String.length s - n) s.
Proof.
  revert n. induction s as [|c s IH]; intros [|n] Hn; simpl in *;
    try done; try lia.
  - by rewrite substring_0_length.
  - rewrite append_String. f_equal. apply IH. lia.
Qed.

Lemma HasSuffix_ends_with (s sfx : string) :
  strings.HasSuffix s sfx = true ↔ ends_with s sfx.
Proof.
  unfold strings.HasSuffix, ends_with. split.
  - intros [Hlen Heq]%andb_prop.
    apply Nat.leb_le in Hlen. apply String.eqb_eq in Heq.
    set (k := String.length s - String.length sfx) in *.
    exists (substring 0 k s).
    rewrite (substring_split s k) at 1 by (subst k; lia).
    f_equal. rewrite <- Heq. f_equal. subst k. lia.
  - intros [pre ->]. rewrite length_append. apply andb_true_intro. split.
    + apply Nat.leb_le. lia.
    + apply String.eqb_eq.
      replace (String.length pre + String.length sfx - String.length sfx)
        with (String.length pre) by lia.
      by rewrite substring_append_drop, substring_0_length.
Qed.

Lemma hasNonServiceSuffix_loop_spec (name : string) (sfxs : list string) :
  hasNonServiceSuffix_loop name sfxs = true
  ↔ ∃ sfx, sfx ∈ sfxs ∧ ends_with name sfx.
Proof.
  induction sfxs as [|sfx rest IH]; simpl.
  - split; [done | intros (? & []%elem_of_nil & _)].
  - destruct (strings.HasSuffix name sfx) eqn:Hs.
    + split; [intros _ | done].
      exists sfx. split; [left | by apply HasSuffix_ends_with].
    + rewrite IH. split.
      * intros (x & Hx & He). exists x. split; [by right | done].
      * intros (x & Hx & He). apply elem_of_cons in Hx as [-> | Hx].
        -- apply HasSuffix_ends_with in He. congruence.
        -- by exists x.
Qed.

End string_facts.

(** ** What each operation does, by the backend's answer *)

Section equations.
Context {B : Type} (srv : api.Service B).

Lemma runServices_ok services w p' b' :
  api.Up srv (project w) (up_options services) (backend w) = (None, p', b') →
  runServices srv services w
  = (Returned None,
     mkWorld p' b'
       (requests w ++ [api.ReqUp (project w) (up_options services)])
       (stdout w)
       (logged w ++ [[VStr "Attempting to being services up:";
                      VStrs services]])).
Proof.
  intros Hup. unfold runServices, up_options in *. proc_unfold. simpl.
  by rewrite Hup.
Qed.

Lemma runServices_fatal services w e p' b' :
  api.Up srv (project w) (up_options services) (backend w)
  = (Some e, p', b') →
  runServices srv services w
  = (Exited 1,
     mkWorld p' b'
       (requests w ++ [api.ReqUp (project w) (up_options services)])
       (stdout w)
       ((logged w ++ [[VStr "Attempting to being services up:";
                       VStrs services]])
          ++ [[VStr "Failed to bring services up:"; VErr (Some e)]])).
Proof.
  intros Hup. unfold runServices, up_options in *. proc_unfold. simpl.
  by rewrite Hup.
Qed.

Lemma downServices_ok services w b' :
  api.Down srv (Project.Name (project w))
           {| DownOptions.Services := services |} (backend w) = (None, b') →
  downServices srv services w
  = (Returned None,
     mkWorld (project w) b'
       (requests w ++ [api.ReqDown (Project.Name (project w))
                         {| DownOptions.Services := services |}])
       (stdout w)
       (logged w ++ [[VStr "Attempting to being services down:";
                      VStrs services]])).
Proof.
  intros Hd. unfold downServices. proc_unfold. simpl. by rewrite Hd.
Qed.

Lemma downServices_fatal services w e b' :
  api.Down srv (Project.Name (project w))
           {| DownOptions.Services := services |} (backend w)
  = (Some e, b') →
  downServices srv services w
  = (Exited 1,
     mkWorld (project w) b'
       (requests w ++ [api.ReqDown (Project.Name (project w))
                         {| DownOptions.Services := services |}])
       (stdout w)
       ((logged w ++ [[VStr "Attempting to being services down:";
                       VStrs services]])
          ++ [[VStr "Failed to bring services down:"; VErr (Some e)]])).
Proof.
  intros Hd. unfold downServices. proc_unfold. simpl. by rewrite Hd.
Qed.

Lemma connectToService_ok service cmd w result b' :
  api.Exec srv (Project.Name (project w)) (exec_options service cmd)
           (backend w) = (result, None, b') →
  connectToService srv service cmd w
  = (Returned tt,
     mkWorld (project w) b'
       (requests w ++ [api.ReqExec (Project.Name (project w))
                         (exec_options service cmd)])
       (stdout w)
       (logged w ++ [[VStr "Command result:"; VInt result;
                      VStr " and err:"; VErr None]])).
Proof.
  intros He. unfold connectToService, exec_options in *. proc_unfold.
  simpl. by rewrite He.
Qed.

Lemma connectToService_fatal service cmd w result e b' :
  api.Exec srv (Project.Name (project w)) (exec_options service cmd)
           (backend w) = (result, Some e, b') →
  connectToService srv service cmd w
  = (Exited 1,
     mkWorld (project w) b'
       (requests w ++ [api.ReqExec (Project.Name (project w))
                         (exec_options service cmd)])
       (stdout w)
       (logged w ++ [[VStr "Failed to connect to service:"; VStr service;
                      VStr ". Error:"; VErr (Some e)]])).
Proof.
  intros He. unfold connectToService, exec_options in *. proc_unfold.
  simpl. by rewrite He.
Qed.

End equations.

(** ** Listing *)

Section listing.
Context {B : Type}.

Lemma printServices_range_eq order (w : World B) :
  printServices_range order w
  = (Returned tt,
     mkWorld (project w) (backend w) (requests w)
             (stdout w ++ suffixed_lines order) (logged w)).
Proof.
  revert w. induction order as [|[k sc] rest IH]; intros w.
  - destruct w. unfold suffixed_lines. simpl. proc_unfold.
    by rewrite app_nil_r.
  - unfold suffixed_lines in *. simpl. proc_unfold.
    destruct (hasNonServiceSuffix (ServiceConfig.Name sc)) eqn:Hs.
    + rewrite filter_cons_True by done. rewrite IH. simpl.
      by rewrite <- app_assoc.
    + rewrite filter_cons_False by (simpl; congruence). by rewrite IH.
Qed.

Lemma elem_of_suffixed_lines order name :
  [VStr name] ∈ suffixed_lines order
  ↔ ∃ e, e ∈ order ∧ ServiceConfig.Name e.2 = name
         ∧ hasNonServiceSuffix name = true.
Proof.
  unfold suffixed_lines. rewrite list_elem_of_fmap. split.
  - intros (e & Heq & [Hs He]%list_elem_of_filter).
    injection Heq as ->. by exists e.
  - intros (e & He & <- & Hs). exists e. split; [done |].
    by apply list_elem_of_filter.
Qed.

(** Whatever order [range] picks, the names printed for a call without
    arguments are those of the declared services that carry a marker. *)
Lemma printServices_any_order services order (w : World B) name :
  range_order services order →
  [VStr name] ∈ drop (length (stdout w))
                     (stdout (printServices order {| cli.Args := [] |} w).2)
  ↔ ∃ k sc, services !! k = Some sc ∧ ServiceConfig.Name sc = name
            ∧ hasNonServiceSuffix name = true.
Proof.
  intros Hord. unfold printServices. simpl.
  rewrite printServices_range_eq. simpl. rewrite drop_app_length.
  rewrite elem_of_suffixed_lines. split.
  - intros ([k sc] & He & Hn & Hs). exists k, sc. split; [|done].
    apply elem_of_map_to_list. by rewrite <- Hord.
  - intros (k & sc & Hl & Hn & Hs). exists (k, sc). split; [|done].
    unfold range_order in Hord. rewrite Hord. by apply elem_of_map_to_list.
Qed.

End listing.

(** C5. The flag [hasNonServiceSuffix] computed by the inner loop of
    [printServices] classifies a name as auxiliary ([true]) exactly when the
    name ends with one of the three fixed markers "-data", "-init" and
    "-server", and as primary ([false]) otherwise.  In particular
    "cache-data" and "db-init" are auxiliary, "api" and "worker" primary. *)
Theorem hasNonServiceSuffix_classifies :
  nonServiceSuffix = ["-data"; "-init"; "-server"]
  ∧ (∀ name,
       hasNonServiceSuffix name = true
       ↔ ends_with name "-data" ∨ ends_with name "-init"
         ∨ ends_with name "-server")
  ∧ (∀ name,
       hasNonServiceSuffix name = false
       ↔ ¬ (ends_with name "-data" ∨ ends_with name "-init"
            ∨ ends_with name "-server"))
  ∧ hasNonServiceSuffix "cache-data" = true
  ∧ hasNonServiceSuffix "db-init" = true
  ∧ hasNonServiceSuffix "api" = false
  ∧ hasNonServiceSuffix "worker" = false.
Proof.
  assert (Hiff : ∀ name,
    hasNonServiceSuffix name = true
    ↔ ends_with name "-data" ∨ ends_with name "-init"
      ∨ ends_with name "-server").
  { intros name. unfold hasNonServiceSuffix.
    rewrite hasNonServiceSuffix_loop_spec. unfold nonServiceSuffix. split.
    - intros (sfx & Hin & He).
      repeat (apply elem_of_cons in Hin as [-> | Hin]; [tauto |]).
      by apply elem_of_nil in Hin.
    - intros [He | [He | He]]; eexists; (split; [|exact He]);
        repeat constructor. }
  split; [reflexivity |]. split; [exact Hiff |]. split.
  - intros name. rewrite <- Hiff.
    destruct (hasNonServiceSuffix name); split; congruence.
  - repeat split; reflexivity.
Qed.

(** C1 (the code departs from the claim). For a call without arguments
    [printServices] writes, in the order [range] visits the services, the
    name of every service that DOES carry a marker of [nonServiceSuffix]
    and of no other.  For the Project with the services "web" and
    "web-data", in either order of visit, the only line written is
    "web-data": the primary service "web" is not shown and the auxiliary
    one is. *)
Theorem printServices_prints_suffixed_names :
  (∀ (B : Type) order (w : World B),
     printServices order {| cli.Args := [] |} w
     = (Returned tt,
        mkWorld (project w) (backend w) (requests w)
                (stdout w ++ suffixed_lines order) (logged w)))
  ∧ (∀ order name,
       [VStr name] ∈ suffixed_lines order
       ↔ ∃ e, e ∈ order ∧ ServiceConfig.Name e.2 = name
              ∧ hasNonServiceSuffix name = true)
  ∧ stdout (printServices
              [("web", backends.web); ("web-data", backends.web_data)]
              {| cli.Args := [] |} (backends.start backends.demo)).2
    = [[VStr "web-data"]]
  ∧ stdout (printServices
              [("web-data", backends.web_data); ("web", backends.web)]
              {| cli.Args := [] |} (backends.start backends.demo)).2
    = [[VStr "web-data"]].
Proof.
  split; [|split; [|split]].
  - intros B order w. unfold printServices. simpl.
    apply printServices_range_eq.
  - intros order name. apply elem_of_suffixed_lines.
  - reflexivity.
  - reflexivity.
Qed.

(** ** Bring-up and bring-down *)

(** C4. Bring-up with an empty target list issues exactly one request to
    the backend: a single [Up] that carries the whole Project, hence every
    service it declares, and restricts neither creation nor start to a
    subset.  For any target list the number of requests issued is one, so
    there is never one call per service. *)
Theorem runServices_one_batched_request :
  ∀ (B : Type) (srv : api.Service B) (w : World B),
    requests (runServices srv [] w).2
    = requests w
        ++ [api.ReqUp (project w)
              {| UpOptions.Create := {| CreateOptions.Services := [] |};
                 UpOptions.Start := {| StartOptions.Services := [] |} |}]
    ∧ ∀ services,
        requests (runServices srv services w).2
        = requests w ++ [api.ReqUp (project w) (up_options services)].
Proof.
  intros B srv w.
  assert (H : ∀ services,
    requests (runServices srv services w).2
    = requests w ++ [api.ReqUp (project w) (up_options services)]).
  { intros services.
    destruct (api.Up srv (project w) (up_options services) (backend w))
      as [[[e|] p'] b'] eqn:Hup.
    - by rewrite (runServices_fatal srv services w e p' b' Hup).
    - by rewrite (runServices_ok srv services w p' b' Hup). }
  split; [apply (H []) | exact H].
Qed.

(** C2 (as amended). When the backend answers a bring-up or bring-down
    with an error, [runServices] and [downServices] do not return it: they
    log it and end the process with status 1 from inside the function.
    They return only when the backend reported no error, and then they
    return [nil].  The last line logged before the exit carries the
    backend's error, so no error goes unreported. *)
Theorem backend_error_ends_the_process :
  ∀ (B : Type) (srv : api.Service B) (services : list string) (w : World B),
    match (api.Up srv (project w) (up_options services) (backend w)).1.1 with
    | Some e =>
        (runServices srv services w).1 = Exited 1
        ∧ last (logged (runServices srv services w).2)
          = Some [VStr "Failed to bring services up:"; VErr (Some e)]
    | None => (runServices srv services w).1 = Returned None
    end
    ∧ match (api.Down srv (Project.Name (project w))
                      {| DownOptions.Services := services |} (backend w)).1 with
      | Some e =>
          (downServices srv services w).1 = Exited 1
          ∧ last (logged (downServices srv services w).2)
            = Some [VStr "Failed to bring services down:"; VErr (Some e)]
      | None => (downServices srv services w).1 = Returned None
      end.
Proof.
  intros B srv services w. split.
  - destruct (api.Up srv (project w) (up_options services) (backend w))
      as [[[e|] p'] b'] eqn:Hup; simpl.
    + rewrite (runServices_fatal srv services w e p' b' Hup). simpl.
      by rewrite last_snoc.
    + by rewrite (runServices_ok srv services w p' b' Hup).
  - destruct (api.Down srv (Project.Name (project w))
                {| DownOptions.Services := services |} (backend w))
      as [[e|] b'] eqn:Hd; simpl.
    + rewrite (downServices_fatal srv services w e b' Hd). simpl.
      by rewrite last_snoc.
    + by rewrite (downServices_ok srv services w b' Hd).
Qed.

(** C2, the claim as stated fails: against a backend that cannot be
    reached, bring-up and bring-down of "web" end the process with status
    1; neither returns the error to its caller. *)
Lemma backend_error_is_not_returned :
  (runServices backends.unreachable ["web"]
               (backends.start backends.demo)).1 = Exited 1
  ∧ (downServices backends.unreachable ["web"]
                  (backends.start backends.demo)).1 = Exited 1.
Proof. split; reflexivity. Qed.

(** C6, the claim as stated fails: against a backend for which starting a
    running service is an error, the first bring-up of "web" returns
    without error and the second one ends the process with status 1. *)
Lemma second_bring_up_can_fail :
  (runServices backends.exclusive ["web"]
               (backends.start backends.demo)).1 = Returned None
  ∧ (runServices backends.exclusive ["web"]
       (runServices backends.exclusive ["web"]
                    (backends.start backends.demo)).2).1 = Exited 1.
Proof. split; vm_compute; reflexivity. Qed.

(** C6 (as amended). [runServices] adds no reconciliation of its own: it
    forwards the request.  If the backend's [Up] may be repeated, then a
    bring-up that returned, followed at once by the same bring-up, returns
    without error again and leaves both the backend's state (so the set of
    services it reports running) and the Project as they were. *)
Theorem runServices_twice :
  ∀ (B : Type) (srv : api.Service B) (services : list string)
    (w w1 : World B) (r : option error),
    up_idempotent srv →
    runServices srv services w = (Returned r, w1) →
    r = None
    ∧ (runServices srv services w1).1 = Returned None
    ∧ backend (runServices srv services w1).2 = backend w1
    ∧ project (runServices srv services w1).2 = project w1.
Proof.
  intros B srv services w w1 r Hidem Hrun.
  destruct (api.Up srv (project w) (up_options services) (backend w))
    as [[[e|] p'] b'] eqn:Hup.
  - rewrite (runServices_fatal srv services w e p' b' Hup) in Hrun.
    discriminate.
  - rewrite (runServices_ok srv services w p' b' Hup) in Hrun.
    injection Hrun as <- <-. apply Hidem in Hup.
    split; [done |].
    by rewrite (runServices_ok srv services (mkWorld p' b' _ _ _) p' b' Hup).
Qed.

(** The [Up] of [backends.reconciling] may be repeated. *)
Lemma reconciling_up_idempotent : up_idempotent backends.reconciling.
Proof.
  intros p o b p' b' Hup. simpl in *. injection Hup as <- <-.
  f_equal. by rewrite <- (assoc_L (∪)), (idemp_L (∪)).
Qed.

(** [runServices_twice] at work: "web" brought up twice against
    [backends.reconciling]. *)
Lemma runServices_twice_witness :
  up_idempotent backends.reconciling
  ∧ (runServices backends.reconciling ["web"]
       (runServices backends.reconciling ["web"]
                    (backends.start backends.demo)).2).1 = Returned None.
Proof.
  split; [exact reconciling_up_idempotent |].
  refine (proj1 (proj2 (runServices_twice _ backends.reconciling ["web"]
            (backends.start backends.demo) _ None
            reconciling_up_idempotent _))).
  reflexivity.
Defined.

(** ** Attach *)

(** C9. The exec request of an attach is fixed by the service name and the
    command line [cmd]: the command is the one-element vector [[cmd]], never
    split; the working directory is "/bin", the terminal is on and the
    environment is empty.  [connectToService] takes no working directory
    and no terminal flag, so nothing else can reach the request; the
    namespace is the Project's name. *)
Theorem connectToService_exec_request :
  ∀ (B : Type) (srv : api.Service B) (service cmd : string) (w : World B),
    requests (connectToService srv service cmd w).2
    = requests w
        ++ [api.ReqExec (Project.Name (project w))
              {| RunOptions.Service := service;
                 RunOptions.Command := [cmd];
                 RunOptions.WorkingDir := "/bin";
                 RunOptions.Tty := true;
                 RunOptions.Environment := [] |}].
Proof.
  intros B srv service cmd w.
  destruct (api.Exec srv (Project.Name (project w))
              (exec_options service cmd) (backend w))
    as [[result [e|]] b'] eqn:He.
  - by rewrite (connectToService_fatal srv service cmd w result e b' He).
  - by rewrite (connectToService_ok srv service cmd w result b' He).
Qed.

(** C7, the claim as stated fails: nothing is running, yet against a
    backend whose exec accepts any service the attach to "web-data"
    returns normally.  [connectToService] makes no check of its own. *)
Lemma attach_to_stopped_service_can_succeed :
  backend (backends.start backends.demo) = ∅
  ∧ (connectToService backends.permissive "web-data" "echo hi"
                      (backends.start backends.demo)).1 = Returned tt.
Proof. split; reflexivity. Qed.

(** C7 (as amended). An attach issues exactly one request, an exec, and so
    never a start request, whether or not the service is running.  It
    fails exactly when the backend's exec reports an error; it then logs
    that error and ends the process with status 1.  No error kind of its
    own is produced. *)
Theorem connectToService_never_starts :
  ∀ (B : Type) (srv : api.Service B) (service cmd : string) (w : World B),
    requests (connectToService srv service cmd w).2
    = requests w ++ [api.ReqExec (Project.Name (project w))
                       (exec_options service cmd)]
    ∧ match (api.Exec srv (Project.Name (project w))
                      (exec_options service cmd) (backend w)).1.2 with
      | Some e =>
          (connectToService srv service cmd w).1 = Exited 1
          ∧ last (logged (connectToService srv service cmd w).2)
            = Some [VStr "Failed to connect to service:"; VStr service;
                    VStr ". Error:"; VErr (Some e)]
      | None => (connectToService srv service cmd w).1 = Returned tt
      end.
Proof.
  intros B srv service cmd w.
  destruct (api.Exec srv (Project.Name (project w))
              (exec_options service cmd) (backend w))
    as [[result [e|]] b'] eqn:He; simpl.
  - rewrite (connectToService_fatal srv service cmd w result e b' He).
    simpl. by rewrite last_snoc.
  - by rewrite (connectToService_ok srv service cmd w result b' He).
Qed.

(** ** The Project across operations *)

Section frame.
Context {B : Type} (srv : api.Service B).

Lemma downServices_project services (w : World B) :
  project (downServices srv services w).2 = project w.
Proof.
  destruct (api.Down srv (Project.Name (project w))
              {| DownOptions.Services := services |} (backend w))
    as [[e|] b'] eqn:Hd.
  - by rewrite (downServices_fatal srv services w e b' Hd).
  - by rewrite (downServices_ok srv services w b' Hd).
Qed.

Lemma connectToService_project service cmd (w : World B) :
  project (connectToService srv service cmd w).2 = project w.
Proof.
  destruct (api.Exec srv (Project.Name (project w))
              (exec_options service cmd) (backend w))
    as [[result [e|]] b'] eqn:He.
  - by rewrite (connectToService_fatal srv service cmd w result e b' He).
  - by rewrite (connectToService_ok srv service cmd w result b' He).
Qed.

Lemma runServices_project services (w : World B) :
  project (runServices srv services w).2
  = (api.Up srv (project w) (up_options services) (backend w)).1.2.
Proof.
  destruct (api.Up srv (project w) (up_options services) (backend w))
    as [[[e|] p'] b'] eqn:Hup.
  - by rewrite (runServices_fatal srv services w e p' b' Hup).
  - by rewrite (runServices_ok srv services w p' b' Hup).
Qed.

Lemma run_op_project op (w : World B) :
  is_up op = false ∨ up_preserves_project srv →
  project (run_op srv op w).2 = project w.
Proof.
  intros Hop.
  assert (Hbind : ∀ (m : Proc B (option error)) (w0 : World B),
    project ((m;; mret tt) w0).2 = project (m w0).2).
  { intros m w0. proc_unfold. by destruct (m w0) as [[a|st] w']. }
  destruct op as [services | services | service cmd]; simpl.
  - destruct Hop as [? | Hp]; [done |].
    rewrite Hbind, runServices_project. apply Hp.
  - rewrite Hbind. apply downServices_project.
  - apply connectToService_project.
Qed.

Lemma run_ops_project ops (w : World B) :
  forallb (λ op, negb (is_up op)) ops = true ∨ up_preserves_project srv →
  project (run_ops srv ops w).2 = project w.
Proof.
  revert w. induction ops as [|op rest IH]; intros w Hops; [done |].
  assert (Hop : is_up op = false ∨ up_preserves_project srv).
  { destruct Hops as [Hall | ?]; [left | by right].
    simpl in Hall. apply andb_prop in Hall as [Hall _].
    by apply negb_true_iff. }
  assert (Hrest : forallb (λ op, negb (is_up op)) rest = true
                  ∨ up_preserves_project srv).
  { destruct Hops as [Hall | ?]; [left | by right].
    simpl in Hall. by apply andb_prop in Hall as [_ Hall]. }
  pose proof (run_op_project op w Hop) as H1.
  simpl. proc_unfold.
  destruct (run_op srv op w) as [[[]|st] w'] eqn:Hrun; simpl in *.
  - rewrite <- H1. by apply IH.
  - done.
Qed.

End frame.

(** C8, the claim as stated fails: [runServices] hands the backend the
    pointer [p], and a backend that records the image it resolved in the
    Project changes it.  After one bring-up against such a backend the
    service "web" of the Project has another image than the loader gave
    it. *)
Lemma bring_up_can_change_the_project :
  Project.Services (project (backends.start backends.demo)) !! "web"
  = Some {| ServiceConfig.Name := "web"; ServiceConfig.Image := "nginx" |}
  ∧ Project.Services
      (project (runServices backends.pinning []
                            (backends.start backends.demo)).2) !! "web"
    = Some {| ServiceConfig.Name := "web";
              ServiceConfig.Image := "nginx@sha256:0" |}.
Proof. split; vm_compute; reflexivity. Qed.

(** C8 (as amended). The code of the three operations writes no field of
    the Project.  Bring-down and attach pass the backend the Project's name
    only and leave the Project unchanged, whatever the backend.  Bring-up
    passes the backend the Project itself and leaves it as the backend's
    [Up] left it.  So after any run of operations the Project is the one it
    was before, provided the run has no bring-up or the backend's [Up] does
    not write the Project. *)
Theorem project_unchanged :
  ∀ (B : Type) (srv : api.Service B) (ops : list Op) (w : World B),
    forallb (λ op, negb (is_up op)) ops = true ∨ up_preserves_project srv →
    project (run_ops srv ops w).2 = project w
    ∧ (∀ services w0,
         project (downServices srv services w0).2 = project w0)
    ∧ (∀ service cmd w0,
         project (connectToService srv service cmd w0).2 = project w0)
    ∧ (∀ services w0,
         project (runServices srv services w0).2
         = (api.Up srv (project w0) (up_options services) (backend w0)).1.2).
Proof.
  intros B srv ops w Hops. split; [by apply run_ops_project |].
  split; [apply downServices_project |].
  split; [apply connectToService_project | apply runServices_project].
Qed.

(** [project_unchanged] at work: bring-downs and an attach against a
    backend that would write the Project on bring-up. *)
Lemma project_unchanged_witness :
  forallb (λ op, negb (is_up op))
          [OpDown ["web"]; OpAttach "web" "echo hi"; OpDown []] = true
  ∧ project (run_ops backends.pinning
               [OpDown ["web"]; OpAttach "web" "echo hi"; OpDown []]
               (backends.start backends.demo)).2
    = backends.demo.
Proof.
  split; [reflexivity |].
  refine (proj1 (project_unchanged _ backends.pinning
            [OpDown ["web"]; OpAttach "web" "echo hi"; OpDown []]
            (backends.start backends.demo) _)).
  left. reflexivity.
Defined.

(** ** The loader *)

(** [backends.load] names the Project as the options say. *)
Lemma load_honours_project_name : loader.honours_project_name backends.load.
Proof. intros details o p _ [= <-]. reflexivity. Qed.

(** The requests of the three operations, and the namespace through a
    run of operations. *)
Section namespace.
Context {B : Type} (srv : api.Service B).

Lemma runServices_requests services (w : World B) :
  requests (runServices srv services w).2
  = requests w ++ [api.ReqUp (project w) (up_options services)].
Proof.
  destruct (api.Up srv (project w) (up_options services) (backend w))
    as [[[e|] p'] b'] eqn:Hup.
  - by rewrite (runServices_fatal srv services w e p' b' Hup).
  - by rewrite (runServices_ok srv services w p' b' Hup).
Qed.

Lemma downServices_requests services (w : World B) :
  requests (downServices srv services w).2
  = requests w ++ [api.ReqDown (Project.Name (project w))
                     {| DownOptions.Services := services |}].
Proof.
  destruct (api.Down srv (Project.Name (project w))
              {| DownOptions.Services := services |} (backend w))
    as [[e|] b'] eqn:Hd.
  - by rewrite (downServices_fatal srv services w e b' Hd).
  - by rewrite (downServices_ok srv services w b' Hd).
Qed.

Lemma connectToService_requests service cmd (w : World B) :
  requests (connectToService srv service cmd w).2
  = requests w ++ [api.ReqExec (Project.Name (project w))
                     (exec_options service cmd)].
Proof.
  destruct (api.Exec srv (Project.Name (project w))
              (exec_options service cmd) (backend w))
    as [[result [e|]] b'] eqn:He.
  - by rewrite (connectToService_fatal srv service cmd w result e b' He).
  - by rewrite (connectToService_ok srv service cmd w result b' He).
Qed.

Lemma bind_ret_world {A} (m : Proc B A) (w : World B) :
  ((m;; mret tt) w).2 = (m w).2.
Proof. proc_unfold. by destruct (m w) as [[a|st] w']. Qed.

(** One operation keeps the name of the Project, unless it is a bring-up
    against a backend that renames, and addresses the namespace of that
    name. *)
Lemma run_op_namespace op (w : World B) :
  is_up op = false ∨ up_preserves_name srv →
  Project.Name (project (run_op srv op w).2) = Project.Name (project w)
  ∧ ∃ new,
      requests (run_op srv op w).2 = requests w ++ new
      ∧ Forall (λ r, request_namespace r = Project.Name (project w)) new.
Proof.
  intros Hop. destruct op as [services | services | service cmd]; simpl.
  - destruct Hop as [? | Hname]; [done |].
    rewrite bind_ret_world, runServices_project, runServices_requests.
    split; [apply Hname |]. eexists. split; [done |].
    by repeat constructor.
  - rewrite bind_ret_world, downServices_project, downServices_requests.
    split; [done |]. eexists. split; [done |]. by repeat constructor.
  - rewrite connectToService_project, connectToService_requests.
    split; [done |]. eexists. split; [done |]. by repeat constructor.
Qed.

Lemma run_ops_namespace ops (w : World B) :
  forallb (λ op, negb (is_up op)) ops = true ∨ up_preserves_name srv →
  Project.Name (project (run_ops srv ops w).2) = Project.Name (project w)
  ∧ ∃ new,
      requests (run_ops srv ops w).2 = requests w ++ new
      ∧ Forall (λ r, request_namespace r = Project.Name (project w)) new.
Proof.
  revert w. induction ops as [|op rest IH]; intros w Hops.
  - split; [done |]. exists []. split; [by rewrite app_nil_r | constructor].
  - assert (Hop : is_up op = false ∨ up_preserves_name srv).
    { destruct Hops as [Hall | ?]; [left | by right].
      simpl in Hall. apply andb_prop in Hall as [Hall _].
      by apply negb_true_iff. }
    assert (Hrest : forallb (λ op, negb (is_up op)) rest = true
                    ∨ up_preserves_name srv).
    { destruct Hops as [Hall | ?]; [left | by right].
      simpl in Hall. by apply andb_prop in Hall as [_ Hall]. }
    destruct (run_op_namespace op w Hop) as (Hn1 & new1 & Hr1 & Hf1).
    simpl. proc_unfold.
    destruct (run_op srv op w) as [[[]|st] w1] eqn:Hrun; simpl in *.
    + destruct (IH w1 Hrest) as (Hn2 & new2 & Hr2 & Hf2).
      split; [congruence |]. exists (new1 ++ new2).
      split; [by rewrite Hr2, Hr1, app_assoc |].
      apply Forall_app. split; [done |]. by rewrite <- Hn1.
    + split; [done |]. by exists new1.
Qed.

End namespace.

(** C10, the claim as stated fails for the bring-downs and attaches that
    follow a bring-up: [runServices] hands the backend the pointer [p], and
    after a bring-up against a backend that writes another name into the
    Project the next bring-down addresses that name.  The loader produced
    a Project named "testproject"; the last request is a [Down] in the
    namespace "testproject_1". *)
Lemma renamed_project_changes_the_namespace :
  (createDockerProject backends.load "services: {}"
                       (backends.start backends.demo)).1
  = Returned backends.demo
  ∧ Project.Name backends.demo = "testproject"
  ∧ last (requests
            (downServices backends.renaming []
               (runServices backends.renaming []
                            (backends.start backends.demo)).2).2)
    = Some (api.ReqDown "testproject_1" {| DownOptions.Services := [] |}).
Proof. repeat split; vm_compute; reflexivity. Qed.

(** C10 (as amended). Given a loader that honours an imperatively set
    project name, every Project [createDockerProject] returns is named
    "testproject", whatever the topology text [data].  Bring-down and
    attach pass the backend the name the Project has when they run.  So
    through any run of operations on that Project every request addresses
    the namespace "testproject", and so do a bring-down and an attach that
    follow the run, provided the run has no bring-up or the backend's [Up]
    leaves the name of the Project as it was. *)
Theorem project_name_is_testproject :
  ∀ (B : Type) (load : loader.Loader) (srv : api.Service B) (data : string)
    (w w' : World B) (p : Project.t) (ops : list Op) (w0 : World B),
    loader.honours_project_name load →
    createDockerProject load data w = (Returned p, w') →
    project w0 = p →
    forallb (λ op, negb (is_up op)) ops = true ∨ up_preserves_name srv →
    Project.Name p = "testproject"
    ∧ (∃ new,
         requests (run_ops srv ops w0).2 = requests w0 ++ new
         ∧ Forall (λ r, request_namespace r = "testproject") new)
    ∧ (∀ services,
         requests (downServices srv services (run_ops srv ops w0).2).2
         = requests (run_ops srv ops w0).2
             ++ [api.ReqDown "testproject"
                   {| DownOptions.Services := services |}])
    ∧ (∀ service cmd,
         requests (connectToService srv service cmd (run_ops srv ops w0).2).2
         = requests (run_ops srv ops w0).2
             ++ [api.ReqExec "testproject" (exec_options service cmd)]).
Proof.
  intros B load srv data w w' p ops w0 Hload Hcreate Hw0 Hops.
  assert (Hname : Project.Name p = "testproject").
  { unfold createDockerProject, loader.LoadWithContext in Hcreate.
    destruct (load _ _) as [p0 | err] eqn:Hl.
    - proc_unfold. injection Hcreate as -> <-.
      apply Hload in Hl; [exact Hl | reflexivity].
    - proc_unfold. discriminate. }
  destruct (run_ops_namespace srv ops w0 Hops) as (Hn & new & Hr & Hf).
  rewrite Hw0, Hname in Hn, Hf.
  split; [exact Hname |]. split; [by exists new |]. split.
  - intros services. by rewrite downServices_requests, Hn.
  - intros service cmd. by rewrite connectToService_requests, Hn.
Qed.

Lemma reconciling_up_preserves_name : up_preserves_name backends.reconciling.
Proof. intros p o b. reflexivity. Qed.

(** [project_name_is_testproject] at work on [backends.load]: a bring-down
    that follows a bring-up and a bring-down of "web". *)
Lemma project_name_is_testproject_witness :
  loader.honours_project_name backends.load
  ∧ up_preserves_name backends.reconciling
  ∧ requests
      (downServices backends.reconciling []
         (run_ops backends.reconciling [OpUp []; OpDown ["web"]]
                  (backends.start backends.demo)).2).2
    = requests
        (run_ops backends.reconciling [OpUp []; OpDown ["web"]]
                 (backends.start backends.demo)).2
        ++ [api.ReqDown "testproject" {| DownOptions.Services := [] |}].
Proof.
  split; [exact load_honours_project_name |].
  split; [exact reconciling_up_preserves_name |].
  refine (proj1 (proj2 (proj2
            (project_name_is_testproject _ backends.load
               backends.reconciling "services: {}"
               (backends.start backends.demo) (backends.start backends.demo)
               backends.demo [OpUp []; OpDown ["web"]]
               (backends.start backends.demo)
               load_honours_project_name _ eq_refl
               (or_intror reconciling_up_preserves_name)))) []).
  reflexivity.
Defined.

(** ** The command table *)

(** C3 (the code departs from the claim). The [connect] command is a stub:
    for every backend, service name and command line, running the program
    with the arguments [connect service cmd] prints one line, "connect
    task: " and the service name, and returns; no request reaches the
    backend.  The attach calls of [main] come after the run of the CLI and
    are reached when it returns, but they name the fixed service
    "my-service" and fixed command lines: against a backend that accepts
    every exec, [main] run with [connect web "echo hi"] issues two execs
    into "my-service" and a bring-down, none of them for "web" or
    "echo hi". *)
Theorem connect_command_is_a_stub :
  (∀ (B : Type) (srv : api.Service B)
     (help : cli.Context → Proc B (option error))
     (service cmd : string) (w : World B),
     cli.Run help (app srv) ["insta"; "connect"; service; cmd] w
     = (Returned None,
        mkWorld (project w) (backend w) (requests w)
                (stdout w ++ [[VStr "connect task: "; VStr service]])
                (logged w)))
  ∧ requests
      (main "services: {}" backends.load (inl tt) (λ _ _, None)
            (λ _ : unit, backends.permissive) (λ _, mret None)
            ["insta"; "connect"; "web"; "echo hi"]
            (backends.start backends.demo)).2
    = [api.ReqExec "testproject" (exec_options "my-service" "echo hello world");
       api.ReqExec "testproject" (exec_options "my-service" "cd / && ls");
       api.ReqDown "testproject" {| DownOptions.Services := [] |}].
Proof.
  split.
  - intros B srv help service cmd w. reflexivity.
  - vm_compute. reflexivity.
Qed.

(** * Further properties of the code *)

(** ** The listing, beyond the call without arguments *)

(** X1. Called with at least one command-line argument, [printServices]
    returns at once: it prints nothing and leaves everything as it was,
    whatever services there are. *)
Theorem printServices_with_arguments :
  ∀ (B : Type) (order : list (string * ServiceConfig.t))
    (cCtx : cli.Context) (w : World B),
    cli.Args cCtx ≠ [] →
    printServices order cCtx w = (Returned tt, w).
Proof.
  intros B order [args] w Hargs. unfold printServices, cli.NArg. simpl in *.
  destruct args as [|a args]; [done | reflexivity].
Qed.

(** [printServices_with_arguments] at work on one argument. *)
Lemma printServices_with_arguments_witness :
  printServices [("web-data", backends.web_data)] {| cli.Args := ["web"] |}
                (backends.start backends.demo)
  = (Returned tt, backends.start backends.demo).
Proof.
  apply (printServices_with_arguments _ [("web-data", backends.web_data)]
           {| cli.Args := ["web"] |} (backends.start backends.demo)).
  discriminate.
Defined.

Lemma suffixed_lines_length order :
  (length (suffixed_lines order) ≤ length order)%nat.
Proof. unfold suffixed_lines. rewrite length_fmap. apply length_filter. Qed.

Lemma suffixed_lines_names order :
  Forall (λ line, ∃ e, e ∈ order ∧ line = [VStr (ServiceConfig.Name e.2)])
         (suffixed_lines order).
Proof.
  unfold suffixed_lines. apply Forall_fmap, Forall_forall.
  intros e [_ He]%list_elem_of_filter. by exists e.
Qed.

(** X2. Whatever its arguments, [printServices] only prints: it always
    returns, issues no request, writes no log line and leaves the Project
    and the backend alone.  It prints at most one line per service, and
    every line it prints is the [Name] of one of the services. *)
Theorem printServices_only_prints :
  ∀ (B : Type) (order : list (string * ServiceConfig.t))
    (cCtx : cli.Context) (w : World B),
    (printServices order cCtx w).1 = Returned tt
    ∧ project (printServices order cCtx w).2 = project w
    ∧ backend (printServices order cCtx w).2 = backend w
    ∧ requests (printServices order cCtx w).2 = requests w
    ∧ logged (printServices order cCtx w).2 = logged w
    ∧ ∃ lines,
        stdout (printServices order cCtx w).2 = stdout w ++ lines
        ∧ (length lines ≤ length order)%nat
        ∧ Forall (λ line, ∃ e, e ∈ order
                               ∧ line = [VStr (ServiceConfig.Name e.2)])
                 lines.
Proof.
  intros B order cCtx w. unfold printServices.
  destruct (0 <? cli.NArg cCtx)%nat.
  - repeat (split; [done |]). exists []. simpl.
    rewrite app_nil_r. split; [done |]. split; [lia | constructor].
  - rewrite printServices_range_eq. simpl. repeat (split; [done |]).
    exists (suffixed_lines order). split; [done |].
    split; [apply suffixed_lines_length | apply suffixed_lines_names].
Qed.

Lemma suffixed_lines_perm o1 o2 :
  o1 ≡ₚ o2 → suffixed_lines o1 ≡ₚ suffixed_lines o2.
Proof. intros Hp. unfold suffixed_lines. by rewrite Hp. Qed.

(** X3. The order in which [range] walks the map does not change what is
    listed: for two orders of the same services the lines on standard
    output are the same up to their order. *)
Theorem printServices_order_irrelevant :
  ∀ (B : Type) (services : gmap string ServiceConfig.t)
    (o1 o2 : list (string * ServiceConfig.t))
    (cCtx : cli.Context) (w : World B),
    range_order services o1 →
    range_order services o2 →
    stdout (printServices o1 cCtx w).2 ≡ₚ stdout (printServices o2 cCtx w).2.
Proof.
  intros B services o1 o2 cCtx w H1 H2. unfold printServices.
  destruct (0 <? cli.NArg cCtx)%nat; [done |].
  rewrite !printServices_range_eq. simpl.
  apply Permutation_app_head, suffixed_lines_perm.
  unfold range_order in *. by rewrite H1, H2.
Qed.

(** [printServices_order_irrelevant] at work on the two orders of the
    services "web" and "web-data". *)
Lemma printServices_order_irrelevant_witness :
  range_order (Project.Services backends.demo)
              [("web", backends.web); ("web-data", backends.web_data)]
  ∧ range_order (Project.Services backends.demo)
                [("web-data", backends.web_data); ("web", backends.web)]
  ∧ stdout (printServices
              [("web", backends.web); ("web-data", backends.web_data)]
              {| cli.Args := [] |} (backends.start backends.demo)).2
    ≡ₚ stdout (printServices
                 [("web-data", backends.web_data); ("web", backends.web)]
                 {| cli.Args := [] |} (backends.start backends.demo)).2.
Proof.
  assert (H1 : range_order (Project.Services backends.demo)
                 [("web", backends.web); ("web-data", backends.web_data)]).
  { unfold range_order. vm_compute. apply perm_swap. }
  assert (H2 : range_order (Project.Services backends.demo)
                 [("web-data", backends.web_data); ("web", backends.web)]).
  { unfold range_order. vm_compute. reflexivity. }
  split; [exact H1 |]. split; [exact H2 |].
  exact (printServices_order_irrelevant _ (Project.Services backends.demo)
           _ _ {| cli.Args := [] |} (backends.start backends.demo) H1 H2).
Defined.

(** ** The suffix test, at its edges *)

Lemma HasSuffix_too_short (s sfx : string) :
  (String.length s < String.length sfx)%nat → strings.HasSuffix s sfx = false.
Proof.
  intros Hlt. unfold strings.HasSuffix.
  by rewrite (proj2 (Nat.leb_gt _ _) Hlt).
Qed.

(** X4. A name shorter than five bytes, the length of the shortest marker,
    is never flagged: it is listed as a service of its own right whatever
    its characters. *)
Theorem hasNonServiceSuffix_short_name :
  ∀ name : string,
    (String.length name < 5)%nat → hasNonServiceSuffix name = false.
Proof.
  intros name Hlt. unfold hasNonServiceSuffix, nonServiceSuffix. simpl.
  rewrite !HasSuffix_too_short; [done | simpl; lia ..].
Qed.

(** [hasNonServiceSuffix_short_name] at work on "-ini". *)
Lemma hasNonServiceSuffix_short_name_witness :
  hasNonServiceSuffix "-ini" = false.
Proof. apply (hasNonServiceSuffix_short_name "-ini"). simpl. lia. Defined.

Lemma substring_append_skip (pre s : string) (n k : nat) :
  substring (String.length pre + n) k (pre +:+ s) = substring n k s.
Proof. induction pre as [|c pre IH]; simpl; [done | apply IH]. Qed.

Lemma HasSuffix_prepend (pre s sfx : string) :
  (String.length sfx ≤ String.length s)%nat →
  strings.HasSuffix (pre +:+ s) sfx = strings.HasSuffix s sfx.
Proof.
  intros Hle. unfold strings.HasSuffix. rewrite length_append.
  rewrite (proj2 (Nat.leb_le _ _) Hle).
  rewrite (proj2 (Nat.leb_le (String.length sfx)
                   (String.length pre + String.length s)))
    by lia.
  replace (String.length pre + String.length s - String.length sfx)
    with (String.length pre + (String.length s - String.length sfx)) by lia.
  by rewrite substring_append_skip.
Qed.

(** X5. The flag is decided by the last seven bytes of the name: putting
    any text in front of a name of seven bytes or more changes nothing. *)
Theorem hasNonServiceSuffix_last_seven :
  ∀ pre name : string,
    (7 ≤ String.length name)%nat →
    hasNonServiceSuffix (pre +:+ name) = hasNonServiceSuffix name.
Proof.
  intros pre name Hle. unfold hasNonServiceSuffix, nonServiceSuffix. simpl.
  rewrite !HasSuffix_prepend; [done | simpl; lia ..].
Qed.

(** [hasNonServiceSuffix_last_seven] at work: "db-server" behind "my-". *)
Lemma hasNonServiceSuffix_last_seven_witness :
  hasNonServiceSuffix ("my-" +:+ "db-server") = hasNonServiceSuffix "db-server".
Proof.
  apply (hasNonServiceSuffix_last_seven "my-" "db-server"). simpl. lia.
Defined.

(** X6. Leaving the loop at the first marker that matches loses nothing:
    the flag is the same for every order of the marker list. *)
Theorem hasNonServiceSuffix_loop_order :
  ∀ (name : string) (sfxs sfxs' : list string),
    sfxs ≡ₚ sfxs' →
    hasNonServiceSuffix_loop name sfxs = hasNonServiceSuffix_loop name sfxs'.
Proof.
  intros name sfxs sfxs' Hp.
  assert (Hiff : hasNonServiceSuffix_loop name sfxs = true
                 ↔ hasNonServiceSuffix_loop name sfxs' = true).
  { rewrite !hasNonServiceSuffix_loop_spec.
    split; intros (sfx & Hin & He); exists sfx; split; try done.
    - by rewrite <- Hp.
    - by rewrite Hp. }
  destruct (hasNonServiceSuffix_loop name sfxs),
           (hasNonServiceSuffix_loop name sfxs'); try done.
  - symmetry. by apply Hiff.
  - by apply Hiff.
Qed.

(** [hasNonServiceSuffix_loop_order] at work on the reversed list. *)
Lemma hasNonServiceSuffix_loop_order_witness :
  hasNonServiceSuffix_loop "db-init" ["-data"; "-init"; "-server"]
  = hasNonServiceSuffix_loop "db-init" ["-server"; "-init"; "-data"].
Proof.
  apply (hasNonServiceSuffix_loop_order "db-init"
           ["-data"; "-init"; "-server"] ["-server"; "-init"; "-data"]).
  exact (Permutation_rev ["-data"; "-init"; "-server"]).
Defined.

(** ** Bring-down and the command table *)

(** X7. A bring-down issues exactly one request to the backend, on the
    success and on the fatal path alike: a [Down] in the namespace of the
    Project's name, for the services it was given and in their order.  It
    writes nothing to standard output, and the first line it logs
    announces the attempt. *)
Theorem downServices_one_request :
  ∀ (B : Type) (srv : api.Service B) (services : list string) (w : World B),
    requests (downServices srv services w).2
    = requests w ++ [api.ReqDown (Project.Name (project w))
                       {| DownOptions.Services := services |}]
    ∧ stdout (downServices srv services w).2 = stdout w
    ∧ ∃ rest,
        logged (downServices srv services w).2
        = logged w
            ++ [VStr "Attempting to being services down:"; VStrs services]
               :: rest.
Proof.
  intros B srv services w. split; [apply downServices_requests |].
  destruct (api.Down srv (Project.Name (project w))
              {| DownOptions.Services := services |} (backend w))
    as [[e|] b'] eqn:Hd.
  - rewrite (downServices_fatal srv services w e b' Hd). simpl.
    split; [done |]. eexists. by rewrite <- app_assoc.
  - rewrite (downServices_ok srv services w b' Hd). simpl.
    split; [done |]. by exists [].
Qed.

(** X8. The error checks in the actions of the bring-up and bring-down
    commands never fire.  Each action does what [runServices], or
    [downServices], does on the arguments after the command name and
    nothing more: it ends where the function ends the process, and
    otherwise returns [nil] in the world the function left.  So the line
    "Failed to run services:" (or "Failed to bring down services:") is
    never logged. *)
Theorem lifecycle_actions_add_nothing :
  ∀ (B : Type) (srv : api.Service B) (cCtx : cli.Context) (w : World B),
    action_up srv cCtx w
    = (match (runServices srv (cli.Args cCtx) w).1 with
       | Returned _ => Returned None
       | Exited st => Exited st
       end,
       (runServices srv (cli.Args cCtx) w).2)
    ∧ action_down srv cCtx w
      = (match (downServices srv (cli.Args cCtx) w).1 with
         | Returned _ => Returned None
         | Exited st => Exited st
         end,
         (downServices srv (cli.Args cCtx) w).2)
    ∧ (∀ e, [VStr "Failed to run services:"; VErr e]
              ∈ logged (action_up srv cCtx w).2
            → [VStr "Failed to run services:"; VErr e] ∈ logged w)
    ∧ (∀ e, [VStr "Failed to bring down services:"; VErr e]
              ∈ logged (action_down srv cCtx w).2
            → [VStr "Failed to bring down services:"; VErr e] ∈ logged w).
Proof.
  intros B srv [services] w. simpl.
  assert (Hup_eq : action_up srv {| cli.Args := services |} w
    = (match (runServices srv services w).1 with
       | Returned _ => Returned None
       | Exited st => Exited st
       end,
       (runServices srv services w).2)).
  { unfold action_up, cli.Slice. simpl.
    destruct (api.Up srv (project w) (up_options services) (backend w))
      as [[[e|] p'] b'] eqn:Hup.
    - pose proof (runServices_fatal srv services w e p' b' Hup) as Hr.
      proc_unfold. by rewrite Hr.
    - pose proof (runServices_ok srv services w p' b' Hup) as Hr.
      proc_unfold. by rewrite Hr. }
  assert (Hdown_eq : action_down srv {| cli.Args := services |} w
    = (match (downServices srv services w).1 with
       | Returned _ => Returned None
       | Exited st => Exited st
       end,
       (downServices srv services w).2)).
  { unfold action_down, cli.Slice. simpl.
    destruct (api.Down srv (Project.Name (project w))
                {| DownOptions.Services := services |} (backend w))
      as [[e|] b'] eqn:Hd.
    - pose proof (downServices_fatal srv services w e b' Hd) as Hr.
      proc_unfold. by rewrite Hr.
    - pose proof (downServices_ok srv services w b' Hd) as Hr.
      proc_unfold. by rewrite Hr. }
  split; [exact Hup_eq |]. split; [exact Hdown_eq |].
  rewrite Hup_eq, Hdown_eq. simpl. split; intros e.
  - destruct (api.Up srv (project w) (up_options services) (backend w))
      as [[[e'|] p'] b'] eqn:Hup.
    + rewrite (runServices_fatal srv services w e' p' b' Hup). simpl.
      rewrite !elem_of_app, !list_elem_of_singleton.
      intros [[? | ?] | ?]; [done | discriminate ..].
    + rewrite (runServices_ok srv services w p' b' Hup). simpl.
      rewrite !elem_of_app, !list_elem_of_singleton.
      intros [? | ?]; [done | discriminate].
  - destruct (api.Down srv (Project.Name (project w))
                {| DownOptions.Services := services |} (backend w))
      as [[e'|] b'] eqn:Hd.
    + rewrite (downServices_fatal srv services w e' b' Hd). simpl.
      rewrite !elem_of_app, !list_elem_of_singleton.
      intros [[? | ?] | ?]; [done | discriminate ..].
    + rewrite (downServices_ok srv services w b' Hd). simpl.
      rewrite !elem_of_app, !list_elem_of_singleton.
      intros [? | ?]; [done | discriminate].
Qed.

(** X9. The actions of the commands [run], [connect] and [update] are
    stubs.  For every context each of them prints one line, its tag
    followed by the first argument (the empty string when there is none),
    and returns [nil]; it issues no request, logs nothing and leaves the
    backend and the Project as they were. *)
Theorem stub_actions_only_print :
  ∀ (B : Type) (cCtx : cli.Context) (w : World B),
    action_run cCtx w
    = (Returned None,
       mkWorld (project w) (backend w) (requests w)
               (stdout w ++ [[VStr "run task: ";
                              VStr (hd "" (cli.Args cCtx))]])
               (logged w))
    ∧ action_connect cCtx w
      = (Returned None,
         mkWorld (project w) (backend w) (requests w)
                 (stdout w ++ [[VStr "connect task: ";
                                VStr (hd "" (cli.Args cCtx))]])
                 (logged w))
    ∧ action_update cCtx w
      = (Returned None,
         mkWorld (project w) (backend w) (requests w)
                 (stdout w ++ [[VStr "update task: ";
                                VStr (hd "" (cli.Args cCtx))]])
                 (logged w)).
Proof.
  intros B [args] w. unfold action_run, action_connect, action_update.
  proc_unfold. unfold cli.First. simpl. by repeat split.
Qed.

(** ** Start-up *)

(** X11. [createDockerService] fails exactly when the docker CLI cannot be
    made or cannot be initialised, and hands back that very error; the
    CLI is initialised with the context "default" and the log level
    "error"; and when both steps succeed the service is the compose
    service built on that CLI. *)
Theorem createDockerService_result :
  ∀ (B DockerCli : Type) (NewDockerCli : DockerCli + error)
    (Initialize : DockerCli → flags.ClientOptions → option error)
    (NewComposeService : DockerCli → api.Service B),
    (∀ e,
       createDockerService NewDockerCli Initialize NewComposeService = inr e
       ↔ NewDockerCli = inr e
         ∨ ∃ dockerCli, NewDockerCli = inl dockerCli
                        ∧ Initialize dockerCli client_options = Some e)
    ∧ (∀ srv,
         createDockerService NewDockerCli Initialize NewComposeService
         = inl srv
         ↔ ∃ dockerCli, NewDockerCli = inl dockerCli
                        ∧ Initialize dockerCli client_options = None
                        ∧ srv = NewComposeService dockerCli).
Proof.
  intros B DockerCli NewDockerCli Initialize NewComposeService.
  unfold createDockerService, client_options.
  destruct NewDockerCli as [dockerCli | err]; simpl.
  - destruct (Initialize dockerCli _) as [err|] eqn:Hinit; split.
    + intros e. split.
      * intros [= <-]. right. by exists dockerCli.
      * intros [[=] | (c & [= <-] & Hc)]. congruence.
    + intros srv. split; [done |]. intros (c & [= <-] & Hc & _). congruence.
    + intros e. split; [done |].
      intros [[=] | (c & [= <-] & Hc)]. congruence.
    + intros srv. split.
      * intros [= <-]. by exists dockerCli.
      * intros (c & [= <-] & _ & ->). done.
  - split.
    + intros e. split.
      * intros [= <-]. by left.
      * intros [[= <-] | (c & [=] & _)]. done.
    + intros srv. split; [done |]. intros (c & [=] & _).
Qed.

Lemma createDockerProject_failed {B} load data err (w : World B) :
  load (compose_config data) testproject_options = inr err →
  createDockerProject load data w
  = (Exited 1,
     mkWorld (project w) (backend w) (requests w) (stdout w)
             (logged w ++ [[VStr "Failed to load docker:";
                            VErr (Some err)]])).
Proof.
  intros Hl. unfold createDockerProject, loader.LoadWithContext.
  change (load _ _) with (load (compose_config data) testproject_options).
  by rewrite Hl.
Qed.

Lemma createDockerProject_loaded {B} load data p (w : World B) :
  load (compose_config data) testproject_options = inl p →
  createDockerProject load data w = (Returned p, w).
Proof.
  intros Hl. unfold createDockerProject, loader.LoadWithContext.
  change (load _ _) with (load (compose_config data) testproject_options).
  by rewrite Hl.
Qed.

(** X12. When the loader rejects the embedded topology, [main] ends the
    process with status 1 whatever the command line: the only thing it
    does is log "Failed to load docker:" with the loader's error.  No
    docker service is made and no request is issued. *)
Theorem main_topology_rejected :
  ∀ (B DockerCli : Type) (yaml : string) (load : loader.Loader)
    (NewDockerCli : DockerCli + error)
    (Initialize : DockerCli → flags.ClientOptions → option error)
    (NewComposeService : DockerCli → api.Service B)
    (help : cli.Context → Proc B (option error))
    (osArgs : list string) (w : World B) (err : error),
    load (compose_config yaml) testproject_options = inr err →
    main yaml load NewDockerCli Initialize NewComposeService help osArgs w
    = (Exited 1,
       mkWorld (project w) (backend w) (requests w) (stdout w)
               (logged w ++ [[VStr "Failed to load docker:";
                              VErr (Some err)]])).
Proof.
  intros B DockerCli yaml load ndc init ncs help osArgs w err Hl.
  unfold main. unfold mbind, proc_bind, bind.
  by rewrite (createDockerProject_failed load yaml err w Hl).
Qed.

(** [main_topology_rejected] at work: a loader that rejects every text,
    and a command line that asks for a bring-down. *)
Lemma main_topology_rejected_witness :
  (main "services: [" (λ _ _, inr "yaml: did not find expected node")
        (inl tt) (λ _ _, None) (λ _ : unit, backends.reconciling)
        (λ _, mret None) ["insta"; "down"]
        (backends.start backends.demo)).1
  = Exited 1.
Proof.
  rewrite (main_topology_rejected _ unit "services: ["
             (λ _ _, inr "yaml: did not find expected node")
             (inl tt) (λ _ _, None) (λ _ : unit, backends.reconciling)
             (λ _, mret None) ["insta"; "down"]
             (backends.start backends.demo)
             "yaml: did not find expected node" eq_refl).
  reflexivity.
Defined.

(** X13. When the topology loads but the docker service cannot be made,
    [main] ends the process with status 1 whatever the command line: it
    logs "Failed to create docker service:" with the error, runs no
    command and issues no request. *)
Theorem main_docker_unavailable :
  ∀ (B DockerCli : Type) (yaml : string) (load : loader.Loader)
    (NewDockerCli : DockerCli + error)
    (Initialize : DockerCli → flags.ClientOptions → option error)
    (NewComposeService : DockerCli → api.Service B)
    (help : cli.Context → Proc B (option error))
    (osArgs : list string) (w : World B) (p : Project.t) (err : error),
    load (compose_config yaml) testproject_options = inl p →
    createDockerService NewDockerCli Initialize NewComposeService = inr err →
    main yaml load NewDockerCli Initialize NewComposeService help osArgs w
    = (Exited 1,
       mkWorld p (backend w) (requests w) (stdout w)
               (logged w ++ [[VStr "Failed to create docker service:";
                              VErr (Some err)]])).
Proof.
  intros B DockerCli yaml load ndc init ncs help osArgs w p err Hl Hs.
  unfold main. unfold mbind, proc_bind, bind.
  rewrite (createDockerProject_loaded load yaml p w Hl). simpl.
  by rewrite Hs.
Qed.

(** [main_docker_unavailable] at work: no docker daemon to talk to. *)
Lemma main_docker_unavailable_witness :
  (main "services: {}" backends.load
        (inr "Cannot connect to the Docker daemon") (λ _ _, None)
        (λ _ : unit, backends.reconciling) (λ _, mret None)
        ["insta"; "down"] (backends.start backends.demo)).1
  = Exited 1.
Proof.
  rewrite (main_docker_unavailable _ unit "services: {}" backends.load
             (inr "Cannot connect to the Docker daemon") (λ _ _, None)
             (λ _ : unit, backends.reconciling) (λ _, mret None)
             ["insta"; "down"] (backends.start backends.demo)
             backends.demo "Cannot connect to the Docker daemon"
             eq_refl eq_refl).
  reflexivity.
Defined.

(** X14. A run of [main] that returns has ended by tearing everything
    down: whatever command was given, its last three requests are the two
    execs into "my-service" and a [Down] of all services, in the namespace
    of the Project's name, and the backend answered none of them with an
    error.  In particular a bring-up through [main] never outlives the
    process. *)
Theorem main_returns_after_teardown :
  ∀ (B DockerCli : Type) (yaml : string) (load : loader.Loader)
    (NewDockerCli : DockerCli + error)
    (Initialize : DockerCli → flags.ClientOptions → option error)
    (NewComposeService : DockerCli → api.Service B)
    (help : cli.Context → Proc B (option error))
    (osArgs : list string) (w w' : World B),
    main yaml load NewDockerCli Initialize NewComposeService help osArgs w
    = (Returned tt, w') →
    ∃ before,
      requests w' = before ++ teardown_requests (Project.Name (project w')).
Proof.
  intros B DockerCli yaml load ndc init ncs help osArgs w w' Hmain.
  unfold main in Hmain. unfold mbind, proc_bind, bind in Hmain.
  destruct (load (compose_config yaml) testproject_options)
    as [p | err] eqn:Hl.
  2: { rewrite (createDockerProject_failed load yaml err w Hl) in Hmain.
       discriminate. }
  rewrite (createDockerProject_loaded load yaml p w Hl) in Hmain.
  cbv beta iota in Hmain.
  destruct (assign_p p w) as [[[]|st] w1] eqn:Ha; [|discriminate].
  destruct (createDockerService ndc init ncs) as [srv | err]; [|discriminate].
  destruct (cli.Run help (app srv) osArgs w1) as [[[e|]|st] w2];
    [discriminate | | discriminate].
  cbv beta iota in Hmain. unfold mret, proc_ret, ret in Hmain.
  cbv beta iota in Hmain.
  destruct (api.Exec srv (Project.Name (project w2))
              (exec_options "my-service" "echo hello world") (backend w2))
    as [[r1 [e1|]] b1] eqn:He1.
  { rewrite (connectToService_fatal srv _ _ w2 r1 e1 b1 He1) in Hmain.
    discriminate. }
  rewrite (connectToService_ok srv _ _ w2 r1 b1 He1) in Hmain.
  cbv beta iota in Hmain.
  destruct (api.Exec srv (Project.Name (project w2))
              (exec_options "my-service" "cd / && ls") b1)
    as [[r2 [e2|]] b2] eqn:He2.
  { rewrite (connectToService_fatal srv _ _ (mkWorld (project w2) b1 _ _ _)
               r2 e2 b2 He2) in Hmain.
    discriminate. }
  rewrite (connectToService_ok srv _ _ (mkWorld (project w2) b1 _ _ _)
             r2 b2 He2) in Hmain.
  proc_unfold. simpl in Hmain.
  destruct (api.Down srv (Project.Name (project w2))
              {| DownOptions.Services := [] |} b2) as [[e3|] b3];
    [discriminate |].
  injection Hmain as <-. simpl. exists (requests w2).
  unfold teardown_requests. by rewrite <- !app_assoc.
Qed.

(** [main_returns_after_teardown] at work: [down web] against a backend
    that accepts every exec. *)
Lemma main_returns_after_teardown_witness :
  ∃ before,
    requests
      (main "services: {}" backends.load (inl tt) (λ _ _, None)
            (λ _ : unit, backends.permissive) (λ _, mret None)
            ["insta"; "down"; "web"] (backends.start backends.demo)).2
    = before
        ++ teardown_requests
             (Project.Name
                (project
                   (main "services: {}" backends.load (inl tt) (λ _ _, None)
                         (λ _ : unit, backends.permissive) (λ _, mret None)
                         ["insta"; "down"; "web"]
                         (backends.start backends.demo)).2)).
Proof.
  apply (main_returns_after_teardown _ unit "services: {}" backends.load
           (inl tt) (λ _ _, None) (λ _ : unit, backends.permissive)
           (λ _, mret None) ["insta"; "down"; "web"]
           (backends.start backends.demo)).
  vm_compute. reflexivity.
Defined.

(** ** Fetching a topology *)

Ltac fetch_cases x url w :=
  unfold getLatestDockerComposeFile, outside.call; proc_unfold;
  destruct (outside.Get x url (outside.env (backend w)))
    as [[body | err] e1] eqn:HGet; cbn -[elem_of];
  [ destruct (outside.ReadAll x body e1) as [[data | err1] e2] eqn:HRead;
    cbn -[elem_of];
    [ destruct (outside.WriteFile x "docker-compose.yaml" data 420 e2)
        as [[err2|] e3] eqn:HWrite; cbn -[elem_of];
      [ | destruct (outside.Close x body e3) as [[err3|] e4] eqn:HClose;
          cbn -[elem_of] ]
    | ]
  | ].

Ltac elem_of_cases H :=
  repeat (apply elem_of_cons in H as [H | H]; [try discriminate H |]);
  try (by apply elem_of_nil in H).

(** X15. [getLatestDockerComposeFile] writes a file at most once, and
    only after the GET succeeded and the body was read to its end: the
    file is "docker-compose.yaml", with mode 0644, and its content is
    exactly the body that was read.  When the GET or the read fails
    nothing is written. *)
Theorem getLatestDockerComposeFile_write :
  ∀ (E Body : Type) (x : outside.Externals E Body) (url : string)
    (w : World (outside.State E)),
    ∃ new,
      outside.calls (backend (getLatestDockerComposeFile x url w).2)
      = outside.calls (backend w) ++ new
      ∧ (∀ name data perm,
           outside.CallWriteFile name data perm ∈ new →
           name = "docker-compose.yaml" ∧ perm = 420%Z
           ∧ ∃ body e1 e2,
               outside.Get x url (outside.env (backend w)) = (inl body, e1)
               ∧ outside.ReadAll x body e1 = (inl data, e2))
      ∧ (∀ i j name data perm name' data' perm',
           new !! i = Some (outside.CallWriteFile name data perm) →
           new !! j = Some (outside.CallWriteFile name' data' perm') →
           i = j).
Proof.
  intros E Body x url w. fetch_cases x url w;
    (eexists; split; [rewrite <- ?app_assoc; reflexivity |]; split;
     [ intros n d p Hin; elem_of_cases Hin;
       try (injection Hin as -> -> ->; by eauto 10)
     | intros i j n d p n' d' p' Hi Hj;
       repeat (destruct i as [|i]; simpl in Hi; try discriminate Hi);
       repeat (destruct j as [|j]; simpl in Hj; try discriminate Hj);
       reflexivity ]).
Qed.

(** X16. The response body is closed exactly when the write went well,
    and closing is then the last call made.  When the read or the write
    fails the process ends with the body still open: the deferred close
    does not run on the way out through [log.Fatalln]. *)
Theorem getLatestDockerComposeFile_close :
  ∀ (E Body : Type) (x : outside.Externals E Body) (url : string)
    (w : World (outside.State E)),
    ∃ new,
      outside.calls (backend (getLatestDockerComposeFile x url w).2)
      = outside.calls (backend w) ++ new
      ∧ (outside.CallClose ∈ new
         ↔ ∃ body e1 data e2 e3,
             outside.Get x url (outside.env (backend w)) = (inl body, e1)
             ∧ outside.ReadAll x body e1 = (inl data, e2)
             ∧ outside.WriteFile x "docker-compose.yaml" data 420 e2
               = (None, e3))
      ∧ (outside.CallClose ∈ new → last new = Some outside.CallClose).
Proof.
  intros E Body x url w. fetch_cases x url w;
    (eexists; split; [rewrite <- ?app_assoc; reflexivity |]; split;
     [ split;
       [ intros Hin; elem_of_cases Hin; by eauto 10
       | intros (body' & e1' & data' & e2' & e3' & HG & HR & HW);
         try discriminate HG; injection HG as <- <-;
         try (rewrite HRead in HR; try discriminate HR;
              injection HR as <- <-);
         try (rewrite HWrite in HW; try discriminate HW);
         repeat constructor ]
     | intros Hin; elem_of_cases Hin; reflexivity ]).
Qed.

(** X17. [getLatestDockerComposeFile] returns exactly when the GET, the
    read, the write and the close all went well, and then it has logged
    nothing.  In every other case it ends the process with status 1 after
    logging one line; a close that fails does so although the file has
    been written.  It never issues a request to the container backend,
    writes nothing to standard output and does not touch the Project. *)
Theorem getLatestDockerComposeFile_outcome :
  ∀ (E Body : Type) (x : outside.Externals E Body) (url : string)
    (w : World (outside.State E)),
    ((getLatestDockerComposeFile x url w).1 = Returned tt
     ↔ ∃ body e1 data e2 e3 e4,
         outside.Get x url (outside.env (backend w)) = (inl body, e1)
         ∧ outside.ReadAll x body e1 = (inl data, e2)
         ∧ outside.WriteFile x "docker-compose.yaml" data 420 e2 = (None, e3)
         ∧ outside.Close x body e3 = (None, e4))
    ∧ ((getLatestDockerComposeFile x url w).1 = Returned tt
       ∧ logged (getLatestDockerComposeFile x url w).2 = logged w
       ∨ (getLatestDockerComposeFile x url w).1 = Exited 1
         ∧ ∃ line,
             logged (getLatestDockerComposeFile x url w).2
             = logged w ++ [line])
    ∧ requests (getLatestDockerComposeFile x url w).2 = requests w
    ∧ stdout (getLatestDockerComposeFile x url w).2 = stdout w
    ∧ project (getLatestDockerComposeFile x url w).2 = project w.
Proof.
  intros E Body x url w. fetch_cases x url w;
    (split;
     [ split;
       [ try discriminate; intros _; by eauto 10
       | intros (body' & e1' & data' & e2' & e3' & e4' & HG & HR & HW & HC);
         try discriminate HG; injection HG as <- <-;
         try (rewrite HRead in HR; try discriminate HR;
              injection HR as <- <-);
         try (rewrite HWrite in HW; try discriminate HW;
              injection HW as <-);
         try (rewrite HClose in HC; try discriminate HC);
         reflexivity ]
     | split; [| done];
       first [ left; split; reflexivity
             | right; split; [reflexivity | by eexists] ] ]).
Qed.

(** ** Reaching the bring-up command *)

(** X18. The bring-up command of the table has the empty string for its
    name and no alias, so no command word selects it: looking up a word
    that is not empty yields, if anything, one of [run], [connect], [down]
    and [update]. *)
Theorem bring_up_has_no_command_word :
  ∀ (B : Type) (srv : api.Service B) (name : string) (c : cli.Command B),
    name ≠ "" →
    find (λ c, cli.HasName c name) (cli.Commands (app srv)) = Some c →
    cli.Name c ∈ ["run"; "connect"; "down"; "update"].
Proof.
  intros B srv name c Hname Hfind. unfold app in Hfind. simpl in Hfind.
  unfold cli.HasName in Hfind. simpl in Hfind.
  repeat case_bool_decide;
    try (injection Hfind as <-; simpl; repeat constructor; fail);
    try discriminate Hfind.
  match goal with H : name ∈ [""] |- _ =>
    apply list_elem_of_singleton in H; contradiction end.
Qed.

(** [bring_up_has_no_command_word] at work on the alias "d". *)
Lemma bring_up_has_no_command_word_witness :
  cli.Name (cli.mkCommand "down" ["d"] "Bring all services down"
                          (action_down backends.reconciling))
  ∈ ["run"; "connect"; "down"; "update"].
Proof.
  apply (bring_up_has_no_command_word _ backends.reconciling "d").
  - discriminate.
  - vm_compute. reflexivity.
Defined.
